(** * gtsam/navigation/ImuFactor.cpp: preintegrated IMU measurements

    A shallow embedding of [ImuFactor::PreintegratedMeasurements] (constructor,
    [resetIntegration], [integrateMeasurement]) and of [ImuFactor::evaluateError],
    over MathComp matrices.

    Scalars.  The source computes in [double]; here a scalar is an element of
    an arbitrary real field [R] (exact arithmetic), instantiated with [rat]
    where a statement is run on concrete numbers.  Every definition uses only
    the operations the source uses (sums, products, transposition, blocks).
    Where rounding decides a statement, line 127 is also given on binary64
    numbers (section Binary64).

    The base class [PreintegrationBase], [Rot3], [Pose3] and [skewSymmetric]
    are declared outside ImuFactor.cpp.  What the specification says about
    them is modelled below, each under a comment that says so; what it leaves
    open is a field of the record [Externals], a parameter of the
    development. *)

From Stdlib Require Import ZArith.
From Stdlib Require Import Floats.PrimFloat Floats.SpecFloat Floats.FloatOps.
From HB Require Import structures.
From mathcomp Require Import ssreflect ssrfun ssrbool eqtype ssrnat seq choice.
From mathcomp Require Import fintype finfun bigop order ssralg ssrnum ssrint rat.
From mathcomp Require Import matrix ring_tactic field_tactic arithmetic_tactic.

Set Implicit Arguments.
Unset Strict Implicit.
Unset Printing Implicit Defensive.

Import Order.TTheory GRing.Theory Num.Theory.
Local Open Scope ring_scope.

(** ** Fixed-size matrices and 3x3 blocks of a 9x9 matrix *)

Section Blocks.

Variable R : realFieldType.

Definition Vector3 := 'cV[R]_3.
Definition Matrix3 := 'M[R]_3.
Definition Matrix9 := 'M[R]_(3 + (3 + 3)).
Definition Vector9 := 'cV[R]_(3 + (3 + 3)).

(** [I_3x3] and [Z_3x3] of the source. *)
Definition I_3x3 : Matrix3 := 1%:M.
Definition Z_3x3 : Matrix3 := 0.

(** Eigen's comma initialiser [M << A00, A01, A02, A10, ..., A22] on nine
    3x3 blocks, row by row. *)
Definition block3x3 (A00 A01 A02 A10 A11 A12 A20 A21 A22 : Matrix3) : Matrix9 :=
  block_mx A00 (row_mx A01 A02)
           (col_mx A10 A20) (block_mx A11 A12 A21 A22).

(** [M.block<3,3>(0,0) = B], [M.block<3,3>(3,3) = B], [M.block<3,3>(6,6) = B]:
    the named block is overwritten, the rest of [M] is kept. *)
Definition set_block00 (B : Matrix3) (M : Matrix9) : Matrix9 :=
  block_mx B (ursubmx M) (dlsubmx M) (drsubmx M).

Definition set_block33 (B : Matrix3) (M : Matrix9) : Matrix9 :=
  let D := drsubmx M in
  block_mx (ulsubmx M) (ursubmx M) (dlsubmx M)
           (block_mx B (ursubmx D) (dlsubmx D) (drsubmx D)).

Definition set_block66 (B : Matrix3) (M : Matrix9) : Matrix9 :=
  let D := drsubmx M in
  block_mx (ulsubmx M) (ursubmx M) (dlsubmx M)
           (block_mx (ulsubmx D) (ursubmx D) (dlsubmx D) B).

(** A dynamically sized Eigen [Matrix]: the type of the optional output
    slots [Fout] and [Gout]. *)
Record Matrix := DynMatrix { rows : nat; cols : nat; coeffs : 'M[R]_(rows, cols) }.

(** [M->resize(9,9)] followed by the assignment of [A] to the slot:
    whatever the slot held, it now holds [A]. *)
Definition resize9_assign (A : Matrix9) (_ : Matrix) : Matrix :=
  @DynMatrix (3 + (3 + 3)) (3 + (3 + 3)) A.

Definition o0 : 'I_3 := ord0.
Definition o1 : 'I_3 := lift ord0 ord0.
Definition o2 : 'I_3 := ord_max.

(** Modelled from the spec: the skew-symmetric operator of a 3-vector (the
    cross-product matrix), a helper the source calls as [skewSymmetric] and
    that is declared outside ImuFactor.cpp. *)
Definition skewSymmetric (w : Vector3) : Matrix3 :=
  \matrix_(i < 3, j < 3)
    match (i : nat), (j : nat) with
    | 0%N, 1%N => - w o2 ord0
    | 0%N, 2%N => w o1 ord0
    | 1%N, 0%N => w o2 ord0
    | 1%N, 2%N => - w o0 ord0
    | 2%N, 0%N => - w o1 ord0
    | 2%N, 1%N => w o0 ord0
    | _, _ => 0
    end.

(** The [i]-th unit row vector. *)
Definition unit_row n (i : 'I_n) : 'rV[R]_n := delta_mx ord0 i.

(** Symmetric, positive semidefinite and positive definite matrices. *)
Definition symmetric n (A : 'M[R]_n) : Prop := A^T = A.

Definition psd n (A : 'M[R]_n) : Prop :=
  forall x : 'rV[R]_n, 0 <= (x *m A *m x^T) ord0 ord0.

Definition pd n (A : 'M[R]_n) : Prop :=
  forall x : 'rV[R]_n, x != 0 -> 0 < (x *m A *m x^T) ord0 ord0.

Definition sym_psd n (A : 'M[R]_n) : Prop := symmetric A /\ psd A.
Definition sym_pd n (A : 'M[R]_n) : Prop := symmetric A /\ pd A.

End Blocks.

(** ** The preintegration state *)

Section State.

Variable R : realFieldType.

Local Notation Vector3 := (Vector3 R).
Local Notation Matrix3 := (Matrix3 R).
Local Notation Matrix9 := (Matrix9 R).

(** Modelled from the spec: a rotation is an element of SO(3), composed by
    matrix multiplication (glossary); [Rot3] is declared outside
    ImuFactor.cpp.  [Rot3::matrix] is then the identity function. *)
Definition Rot3 := Matrix3.
Definition Rot3_identity : Rot3 := 1%:M.
Definition Rot3_compose (a b : Rot3) : Rot3 := a *m b.
Definition Rot3_matrix (r : Rot3) : Matrix3 := r.

(** Modelled from the spec: a sensor-to-body rigid transform. *)
Record Pose3 := mkPose3 { rotation : Rot3; translation : Vector3 }.

(** Modelled from the spec: "Bias: a pair (accelerometer bias, gyroscope
    bias)"; [imuBias::ConstantBias] is declared outside ImuFactor.cpp. *)
Record ConstantBias := mkBias { accelerometer : Vector3; gyroscope : Vector3 }.

(** Modelled from the spec: "three Jacobian matrices mapping a perturbation
    in accelerometer/gyroscope bias to a perturbation in each delta"; the
    members of [PreintegrationBase] are declared outside ImuFactor.cpp. *)
Record BiasJacobians := mkBiasJacobians {
  delRdelBias : 'M[R]_(3, 3 + 3);
  delVdelBias : 'M[R]_(3, 3 + 3);
  delPdelBias : 'M[R]_(3, 3 + 3)
}.

Definition zeroBiasJacobians : BiasJacobians := mkBiasJacobians 0 0 0.

(** Modelled from the spec: the state of the base class
    [PreintegrationBase] (section 3, PreintegratedDelta): the bias copy used
    for bias removal, the second-order position integration flag, the three
    deltas and the bias Jacobians. *)
Record PreintegrationBase := mkBase {
  biasHat : ConstantBias;
  use2ndOrderIntegration : bool;
  deltaRij_ : Rot3;
  deltaVij_ : Vector3;
  deltaPij_ : Vector3;
  biasJacobians : BiasJacobians
}.

(** [ImuFactor::PreintegratedMeasurements]: the base part and the two 9x9
    members [measurementCovariance_] and [preintMeasCov_]. *)
Record PreintegratedMeasurements := mkPIM {
  base : PreintegrationBase;
  measurementCovariance_ : Matrix9;
  preintMeasCov_ : Matrix9
}.

(** [ImuFactor]: the snapshot [_PIM_], the members of [ImuFactorBase] that
    [evaluateError] reads, the five keys and the covariance handed to the
    noise model. *)
Definition Key := nat.

Record ImuFactor := mkImuFactor {
  keys : Key * Key * Key * Key * Key;
  noiseModel_covariance : Matrix9;
  gravity_ : Vector3;
  omegaCoriolis_ : Vector3;
  body_P_sensor_ : option Pose3;
  use2ndOrderCoriolis_ : bool;
  _PIM_ : PreintegratedMeasurements
}.

(** The code this file calls and that neither ImuFactor.cpp nor the
    specification defines: the Lie-group helpers of [Rot3], the lever-arm
    branch of [correctMeasurementsByBiasAndSensorPose], the recursion of
    [updatePreintegratedJacobians] and [computeErrorAndJacobians].  The last
    one is called on the [const] member [_PIM_] with inputs passed by
    [const&]: a function of its arguments, returning the residual and the
    contents of the requested Jacobian slots. *)
Record Externals := mkExternals {
  Expmap : Vector3 -> Rot3;
  Logmap : Rot3 -> Vector3;
  rightJacobianExpMapSO3 : Vector3 -> Matrix3;
  rightJacobianExpMapSO3inverse : Vector3 -> Matrix3;
  Rot3_inverse : Rot3 -> Rot3;
  sensorPoseCorrection : Pose3 -> Vector3 * Vector3 -> Vector3 * Vector3;
  biasJacobianRecursion :
    Vector3 -> Matrix3 -> Rot3 -> R -> PreintegrationBase -> BiasJacobians;
  computeErrorAndJacobians :
    PreintegratedMeasurements -> Pose3 -> Vector3 -> Pose3 -> Vector3 ->
    ConstantBias -> Vector3 -> Vector3 -> bool ->
    option (Matrix R) -> option (Matrix R) -> option (Matrix R) ->
    option (Matrix R) -> option (Matrix R) ->
    Vector9 R * (option (Matrix R) * option (Matrix R) * option (Matrix R) *
                 option (Matrix R) * option (Matrix R))
}.

End State.

(** ** The operations *)

Section Operations.

Variable R : realFieldType.
Variable ext : Externals R.

Local Notation Vector3 := (Vector3 R).
Local Notation Matrix3 := (Matrix3 R).
Local Notation Matrix9 := (Matrix9 R).
Local Notation Rot3 := (Rot3 R).
Local Notation Matrix := (Matrix R).
Local Notation I_3x3 := (I_3x3 R).
Local Notation Z_3x3 := (Z_3x3 R).

(** *** The base class, as far as the specification describes it *)

(** Modelled from the spec: a preintegrator that never integrated has
    identity deltas (section 7) and reset restores that state (section 4.1);
    the constructor of [PreintegrationBase] is declared outside
    ImuFactor.cpp. *)
Definition PreintegrationBase_init (bias : ConstantBias R)
    (use2ndOrderIntegration : bool) : PreintegrationBase R :=
  mkBase bias use2ndOrderIntegration (Rot3_identity R) 0 0 (zeroBiasJacobians R).

(** Modelled from the spec: "reset(): clears PreintegratedDelta to the
    identity (zero rotation, zero velocity, zero position, zero
    bias-Jacobians)"; [PreintegrationBase::resetIntegration] is declared
    outside ImuFactor.cpp. *)
Definition PreintegrationBase_resetIntegration (b : PreintegrationBase R) :
    PreintegrationBase R :=
  mkBase (biasHat b) (use2ndOrderIntegration b)
         (Rot3_identity R) 0 0 (zeroBiasJacobians R).

(** Modelled from the spec: step 1, "subtract current bias from acc/omega;
    if a sensor-to-body transform is supplied, rotate the angular velocity
    into body frame and apply the standard lever-arm correction"; the
    lever-arm branch is the parameter [sensorPoseCorrection]. *)
Definition correctMeasurementsByBiasAndSensorPose (b : PreintegrationBase R)
    (measuredAcc measuredOmega : Vector3) (body_P_sensor : option (Pose3 R)) :
    Vector3 * Vector3 :=
  let corrected := (measuredAcc - accelerometer (biasHat b),
                    measuredOmega - gyroscope (biasHat b)) in
  match body_P_sensor with
  | None => corrected
  | Some p => sensorPoseCorrection ext p corrected
  end.

(** The accessors [deltaRij()] and [thetaRij()] of the base class: the
    rotation delta as a matrix, and its rotation vector (modelled from the
    spec: "the current cumulative rotation vector", the log map of the
    rotation delta). *)
Definition deltaRij (b : PreintegrationBase R) : Matrix3 := Rot3_matrix (deltaRij_ b).
Definition thetaRij (b : PreintegrationBase R) : Vector3 := Logmap ext (deltaRij_ b).

(** Modelled from the spec: step 3 updates the bias Jacobians and nothing
    else; the recursion itself is the parameter [biasJacobianRecursion]. *)
Definition updatePreintegratedJacobians (correctedAcc : Vector3)
    (Jr_theta_incr : Matrix3) (Rincr : Rot3) (deltaT : R)
    (b : PreintegrationBase R) : PreintegrationBase R :=
  mkBase (biasHat b) (use2ndOrderIntegration b)
         (deltaRij_ b) (deltaVij_ b) (deltaPij_ b)
         (biasJacobianRecursion ext correctedAcc Jr_theta_incr Rincr deltaT b).

(** Modelled from the spec: step 4, "rotation delta <- rotation delta o
    increment; velocity delta <- velocity delta + (cumulative rotation) .
    corrected_acc . dt; position delta <- position delta + velocity delta .
    dt + (if second-order integration is enabled) 1/2 . (cumulative
    rotation) . corrected_acc . dt^2".  Each right-hand side reads the
    values held before the step (the source's note: "each update uses old
    values"). *)
Definition updatePreintegratedMeasurements (correctedAcc : Vector3)
    (incrR : Rot3) (deltaT : R) (b : PreintegrationBase R) :
    PreintegrationBase R :=
  let dRij := deltaRij b in
  mkBase (biasHat b) (use2ndOrderIntegration b)
         (Rot3_compose (deltaRij_ b) incrR)
         (deltaVij_ b + deltaT *: (dRij *m correctedAcc))
         (deltaPij_ b + deltaT *: deltaVij_ b +
          (if use2ndOrderIntegration b
           then (2^-1 * deltaT * deltaT) *: (dRij *m correctedAcc) else 0))
         (biasJacobians b).

(** *** ImuFactor::PreintegratedMeasurements *)

(** The constructor (lines 34-45). *)
Definition PreintegratedMeasurements_ctor (bias : ConstantBias R)
    (measuredAccCovariance measuredOmegaCovariance
     integrationErrorCovariance : Matrix3)
    (use2ndOrderIntegration : bool) : PreintegratedMeasurements R :=
  let m0 : Matrix9 := 0 in
  let m1 := set_block00 integrationErrorCovariance m0 in
  let m2 := set_block33 measuredAccCovariance m1 in
  let m3 := set_block66 measuredOmegaCovariance m2 in
  mkPIM (PreintegrationBase_init bias use2ndOrderIntegration) m3 0.

(** [resetIntegration] (lines 62-65). *)
Definition resetIntegration (s : PreintegratedMeasurements R) :
    PreintegratedMeasurements R :=
  mkPIM (PreintegrationBase_resetIntegration (base s))
        (measurementCovariance_ s) 0.

(** [integrateMeasurement] (lines 68-143).  [Fout] and [Gout] are the
    optional output slots: [Some m] is a slot the caller supplies, holding
    [m]; the result gives the slots after the call. *)
Definition integrateMeasurement (measuredAcc measuredOmega : Vector3)
    (deltaT : R) (body_P_sensor : option (Pose3 R))
    (Fout Gout : option Matrix) (s : PreintegratedMeasurements R) :
    PreintegratedMeasurements R * option Matrix * option Matrix :=
  let: (correctedAcc, correctedOmega) :=
    correctMeasurementsByBiasAndSensorPose (base s) measuredAcc measuredOmega
                                           body_P_sensor in
  let theta_incr := deltaT *: correctedOmega in
  let Rincr := Expmap ext theta_incr in
  let Jr_theta_incr := rightJacobianExpMapSO3 ext theta_incr in
  (* Update Jacobians *)
  let b1 := updatePreintegratedJacobians correctedAcc Jr_theta_incr Rincr
                                         deltaT (base s) in
  let theta_i := thetaRij b1 in
  let R_i := deltaRij b1 in
  let Jr_theta_i := rightJacobianExpMapSO3 ext theta_i in
  (* Update preintegrated measurements *)
  let b2 := updatePreintegratedMeasurements correctedAcc Rincr deltaT b1 in
  let theta_j := thetaRij b2 in
  let Jrinv_theta_j := rightJacobianExpMapSO3inverse ext theta_j in
  let H_pos_pos := I_3x3 in
  let H_pos_vel := deltaT *: I_3x3 in
  let H_pos_angles := Z_3x3 in
  let H_vel_pos := Z_3x3 in
  let H_vel_vel := I_3x3 in
  let H_vel_angles :=
    deltaT *: (- R_i *m skewSymmetric correctedAcc *m Jr_theta_i) in
  let H_angles_pos := Z_3x3 in
  let H_angles_vel := Z_3x3 in
  let H_angles_angles :=
    Jrinv_theta_j *m Rot3_matrix (Rot3_inverse ext Rincr) *m Jr_theta_i in
  let F := block3x3 H_pos_pos H_pos_vel H_pos_angles
                    H_vel_pos H_vel_vel H_vel_angles
                    H_angles_pos H_angles_vel H_angles_angles in
  (* first order uncertainty propagation *)
  let cov := F *m preintMeasCov_ s *m F^T + deltaT *: measurementCovariance_ s in
  let G := block3x3 (deltaT *: I_3x3) Z_3x3 Z_3x3
                    Z_3x3 (deltaT *: R_i) Z_3x3
                    Z_3x3 Z_3x3 (deltaT *: (Jrinv_theta_j *m Jr_theta_incr)) in
  (mkPIM b2 (measurementCovariance_ s) cov,
   omap (resize9_assign F) Fout,
   omap (resize9_assign G) Gout).

(** The 9x9 transition matrix [F] that [integrateMeasurement] builds on
    lines 101-121, as a function of the call's inputs and the state before
    the call. *)
Definition transitionF (measuredAcc measuredOmega : Vector3) (deltaT : R)
    (body_P_sensor : option (Pose3 R)) (s : PreintegratedMeasurements R) :
    Matrix9 :=
  let: (correctedAcc, correctedOmega) :=
    correctMeasurementsByBiasAndSensorPose (base s) measuredAcc measuredOmega
                                           body_P_sensor in
  let Rincr := Expmap ext (deltaT *: correctedOmega) in
  let Jr_theta_incr := rightJacobianExpMapSO3 ext (deltaT *: correctedOmega) in
  let b1 := updatePreintegratedJacobians correctedAcc Jr_theta_incr Rincr
                                         deltaT (base s) in
  let b2 := updatePreintegratedMeasurements correctedAcc Rincr deltaT b1 in
  block3x3 I_3x3 (deltaT *: I_3x3) Z_3x3
           Z_3x3 I_3x3
           (deltaT *: (- deltaRij b1 *m skewSymmetric correctedAcc
                         *m rightJacobianExpMapSO3 ext (thetaRij b1)))
           Z_3x3 Z_3x3
           (rightJacobianExpMapSO3inverse ext (thetaRij b2)
              *m Rot3_matrix (Rot3_inverse ext Rincr)
              *m rightJacobianExpMapSO3 ext (thetaRij b1)).

(** The two mutating operations of [PreintegratedMeasurements], and a run
    of a sequence of them. *)
Inductive operation :=
  | OpReset
  | OpIntegrate (measuredAcc measuredOmega : Vector3) (deltaT : R)
              (body_P_sensor : option (Pose3 R)) (Fout Gout : option Matrix).

Definition exec (s : PreintegratedMeasurements R) (o : operation) :
    PreintegratedMeasurements R :=
  match o with
  | OpReset => resetIntegration s
  | OpIntegrate a w dt p Fo Go => (integrateMeasurement a w dt p Fo Go s).1.1
  end.

Definition run (ops : seq operation) (s : PreintegratedMeasurements R) :
    PreintegratedMeasurements R :=
  foldl exec s ops.

Definition positive_deltaT (o : operation) : bool :=
  match o with
  | OpReset => true
  | OpIntegrate _ _ dt _ _ _ => 0 < dt
  end.

(** *** ImuFactor *)

(** The constructor (lines 152-161): the noise model is built from the
    snapshot's [preintMeasCov_], and the snapshot is copied. *)
Definition ImuFactor_ctor (pose_i vel_i pose_j vel_j bias : Key)
    (preintegratedMeasurements : PreintegratedMeasurements R)
    (gravity omegaCoriolis : Vector3) (body_P_sensor : option (Pose3 R))
    (use2ndOrderCoriolis : bool) : ImuFactor R :=
  mkImuFactor (pose_i, vel_i, pose_j, vel_j, bias)
              (preintMeasCov_ preintegratedMeasurements)
              gravity omegaCoriolis body_P_sensor use2ndOrderCoriolis
              preintegratedMeasurements.

(** [evaluateError] (lines 191-199), a [const] method. *)
Definition evaluateError (f : ImuFactor R) (pose_i : Pose3 R) (vel_i : Vector3)
    (pose_j : Pose3 R) (vel_j : Vector3) (bias_i : ConstantBias R)
    (H1 H2 H3 H4 H5 : option Matrix) :=
  computeErrorAndJacobians ext (_PIM_ f) pose_i vel_i pose_j vel_j bias_i
    (gravity_ f) (omegaCoriolis_ f) (use2ndOrderCoriolis_ f) H1 H2 H3 H4 H5.

End Operations.

(** ** Predicates on states and on the parameters *)

Section Predicates.

Variable R : realFieldType.

(** The invariant behind the covariance recursion: the noise matrix is
    symmetric positive semidefinite, and so is the accumulated covariance. *)
Definition cov_inv (s : PreintegratedMeasurements R) : Prop :=
  sym_psd (measurementCovariance_ s) /\ sym_psd (preintMeasCov_ s).

(** A state with zero bias whose rotation delta is the identity. *)
Definition at_rest (s : PreintegratedMeasurements R) : Prop :=
  [/\ accelerometer (biasHat (base s)) = 0, gyroscope (biasHat (base s)) = 0 &
      deltaRij_ (base s) = 1%:M].

(** The values of the Lie-group helpers at the zero rotation vector and at
    the identity rotation: the exponential of zero is the identity, the
    logarithm of the identity is zero, both right Jacobians are the identity
    at zero, and the identity is its own inverse. *)
Definition exact_at_zero (ext : Externals R) : Prop :=
  [/\ Expmap ext 0 = 1%:M, Logmap ext 1%:M = 0,
      rightJacobianExpMapSO3 ext 0 = 1%:M,
      rightJacobianExpMapSO3inverse ext 0 = 1%:M &
      Rot3_inverse ext 1%:M = 1%:M].

End Predicates.

(** ** An instance of the parameters and concrete inputs

    First-order (small-angle) Lie-group helpers: the exponential map
    truncated after its linear term, its first-order inverse, and identity
    right Jacobians.  At the zero rotation vector and at the identity
    rotation these are the exact values.  The other three fields are
    stand-ins of the right shape: a rotation-only sensor correction, a
    first-order bias-Jacobian recursion, and a residual that compares the
    deltas with the velocities.  The instance only serves to run the
    statements on concrete inputs; the inputs used below reach the helpers
    at the zero rotation vector and the identity rotation only, and the
    lemmas that matter hold for every instance that is exact there. *)

Section SmallAngle.

Variable R : realFieldType.

Definition vee (M : Matrix3 R) : Vector3 R :=
  \col_(i < 3)
    match (i : nat) with
    | 0%N => M o2 o1
    | 1%N => M o0 o2
    | _ => M o1 o0
    end.

Definition smallAngle : Externals R :=
  {| Expmap := fun theta => 1%:M + skewSymmetric theta;
     Logmap := fun r => vee (2^-1 *: (r - r^T));
     rightJacobianExpMapSO3 := fun _ => 1%:M;
     rightJacobianExpMapSO3inverse := fun _ => 1%:M;
     Rot3_inverse := fun r => r^T;
     sensorPoseCorrection := fun p c => (rotation p *m c.1, rotation p *m c.2);
     biasJacobianRecursion := fun correctedAcc Jr_theta_incr Rincr deltaT b =>
       let J := biasJacobians b in
       mkBiasJacobians
         (Rincr^T *m delRdelBias J - deltaT *: row_mx 0 Jr_theta_incr)
         (delVdelBias J - deltaT *: row_mx (deltaRij_ b) 0)
         (delPdelBias J + deltaT *: delVdelBias J);
     computeErrorAndJacobians :=
       fun pim pose_i vel_i pose_j vel_j bias_i g w c H1 H2 H3 H4 H5 =>
         (col_mx (deltaPij_ (base pim) - vel_i)
                 (col_mx (deltaVij_ (base pim) - (vel_j - vel_i)) 0),
          (H1, H2, H3, H4, H5)) |}.

End SmallAngle.

(** Concrete inputs: a fresh accumulator with zero bias and identity noise
    blocks, a stationary gyroscope, and an accelerometer reading of 10 along
    the third axis, up or down.  They are stated over any real field and
    run over the rationals. *)
Section Inputs.

Variable R : realFieldType.

Definition zeroBias : ConstantBias R := mkBias 0 0.

Definition fresh : PreintegratedMeasurements R :=
  PreintegratedMeasurements_ctor zeroBias 1%:M 1%:M 1%:M false.

Definition acc_up : Vector3 R := 10%:R *: delta_mx o2 ord0.
Definition acc_down : Vector3 R := (- 10%:R) *: delta_mx o2 ord0.

Definition still (acc : Vector3 R) (deltaT : R) : operation R :=
  OpIntegrate acc 0 deltaT None None None.

Definition identityPose : Pose3 R := mkPose3 1%:M 0.

End Inputs.

(** ** Block access and the noise-mapping matrix *)

Section Access.

Variable R : realFieldType.
Variable ext : Externals R.

(** [M.block<3,3>(3i,3j)] read from a 9x9 matrix, for the nine blocks. *)
Definition block00 (M : Matrix9 R) : Matrix3 R := ulsubmx M.
Definition block01 (M : Matrix9 R) : Matrix3 R := lsubmx (ursubmx M).
Definition block02 (M : Matrix9 R) : Matrix3 R := rsubmx (ursubmx M).
Definition block10 (M : Matrix9 R) : Matrix3 R := usubmx (dlsubmx M).
Definition block11 (M : Matrix9 R) : Matrix3 R := ulsubmx (drsubmx M).
Definition block12 (M : Matrix9 R) : Matrix3 R := ursubmx (drsubmx M).
Definition block20 (M : Matrix9 R) : Matrix3 R := dsubmx (dlsubmx M).
Definition block21 (M : Matrix9 R) : Matrix3 R := dlsubmx (drsubmx M).
Definition block22 (M : Matrix9 R) : Matrix3 R := drsubmx (drsubmx M).

(** The 9x9 matrix that [integrateMeasurement] writes to a supplied [Gout]
    (lines 134-142), as a function of the call's inputs and the state
    before the call. *)
Definition noiseG (measuredAcc measuredOmega : Vector3 R) (deltaT : R)
    (body_P_sensor : option (Pose3 R)) (s : PreintegratedMeasurements R) :
    Matrix9 R :=
  let: (correctedAcc, correctedOmega) :=
    correctMeasurementsByBiasAndSensorPose ext (base s) measuredAcc
                                           measuredOmega body_P_sensor in
  let Rincr := Expmap ext (deltaT *: correctedOmega) in
  let Jr_theta_incr := rightJacobianExpMapSO3 ext (deltaT *: correctedOmega) in
  let b1 := updatePreintegratedJacobians ext correctedAcc Jr_theta_incr Rincr
                                         deltaT (base s) in
  let b2 := updatePreintegratedMeasurements correctedAcc Rincr deltaT b1 in
  block3x3 (deltaT *: I_3x3 R) (Z_3x3 R) (Z_3x3 R)
           (Z_3x3 R) (deltaT *: deltaRij b1) (Z_3x3 R)
           (Z_3x3 R) (Z_3x3 R)
           (deltaT *: (rightJacobianExpMapSO3inverse ext (thetaRij ext b2)
                         *m Jr_theta_incr)).

(** The object as it stands after each of the three writes of one call, in
    the order of the source: at entry, after [updatePreintegratedJacobians]
    (line 85), after [updatePreintegratedMeasurements] (line 96) and after
    the assignment of [preintMeasCov_] (line 127).  The base-class methods
    of lines 85 and 96 cannot reach the members of the derived class, so the
    two covariance members are those of the entry state until line 127. *)
Definition integrateMeasurement_states (measuredAcc measuredOmega : Vector3 R)
    (deltaT : R) (body_P_sensor : option (Pose3 R))
    (s : PreintegratedMeasurements R) : seq (PreintegratedMeasurements R) :=
  let: (correctedAcc, correctedOmega) :=
    correctMeasurementsByBiasAndSensorPose ext (base s) measuredAcc
                                           measuredOmega body_P_sensor in
  let theta_incr := deltaT *: correctedOmega in
  let Rincr := Expmap ext theta_incr in
  let Jr_theta_incr := rightJacobianExpMapSO3 ext theta_incr in
  let b1 := updatePreintegratedJacobians ext correctedAcc Jr_theta_incr Rincr
                                         deltaT (base s) in
  let b2 := updatePreintegratedMeasurements correctedAcc Rincr deltaT b1 in
  [:: s;
      mkPIM b1 (measurementCovariance_ s) (preintMeasCov_ s);
      mkPIM b2 (measurementCovariance_ s) (preintMeasCov_ s);
      (integrateMeasurement ext measuredAcc measuredOmega deltaT
                            body_P_sensor None None s).1.1].

End Access.

(** ** Line 127 on binary64 numbers

    Matrices of IEEE 754 binary64 numbers as rows of primitive floats, with
    the operations of line 127: product, transposition, sum and scaling.  A
    dot product is accumulated from left to right starting at zero; the run
    below multiplies by the zero matrix, where every order of summation
    gives the same result. *)

Section Binary64.

Definition fmatrix := seq (seq float).

Definition fdot (r c : seq float) : float :=
  foldl (fun acc xy => PrimFloat.add acc (PrimFloat.mul xy.1 xy.2))
        0%float (zip r c).

Definition ftranspose (M : fmatrix) : fmatrix :=
  [seq [seq nth 0%float r j | r <- M] | j <- iota 0 (size (head [::] M))].

Definition fmul (A B : fmatrix) : fmatrix :=
  [seq [seq fdot r c | c <- ftranspose B] | r <- A].

Definition fadd (A B : fmatrix) : fmatrix :=
  [seq [seq PrimFloat.add xy.1 xy.2 | xy <- zip rc.1 rc.2] | rc <- zip A B].

Definition fscale (A : fmatrix) (a : float) : fmatrix :=
  [seq [seq PrimFloat.mul x a | x <- r] | r <- A].

(** [preintMeasCov_ = F * preintMeasCov_ * F.transpose() +
    measurementCovariance_ * deltaT] (line 127). *)
Definition propagate_binary64 (F P Q : fmatrix) (deltaT : float) : fmatrix :=
  fadd (fmul (fmul F P) (ftranspose F)) (fscale Q deltaT).

Definition fZ3 : fmatrix := nseq 3 (nseq 3 0%float).
Definition fI3 : fmatrix :=
  [:: [:: 1; 0; 0]; [:: 0; 1; 0]; [:: 0; 0; 1]]%float.

(** Three 3x3 blocks side by side, and the comma initialiser on nine
    blocks. *)
Definition frow3 (A B C : fmatrix) : fmatrix :=
  [seq abc.1.1 ++ abc.1.2 ++ abc.2 | abc <- zip (zip A B) C].

Definition fblock3x3 (A00 A01 A02 A10 A11 A12 A20 A21 A22 : fmatrix) : fmatrix :=
  frow3 A00 A01 A02 ++ frow3 A10 A11 A12 ++ frow3 A20 A21 A22.

(** The exact value of a finite binary64 number, as a pair [(m, e)] that
    stands for [m * 2^e]. *)
Definition dyadic (x : float) : option (Z * Z) :=
  match Prim2SF x with
  | S754_zero _ => Some (Z0, Z0)
  | S754_finite sign m e => Some ((if sign then Zneg m else Zpos m), e)
  | _ => None
  end.

Definition dyadic_add (x y : Z * Z) : Z * Z :=
  let e := Z.min x.2 y.2 in
  (Z.add (Z.mul x.1 (Z.pow (Zpos 2) (Z.sub x.2 e)))
         (Z.mul y.1 (Z.pow (Zpos 2) (Z.sub y.2 e))), e).

(** The exact value of the quadratic form [x^T M x] for an integer vector
    [x] and a matrix of finite binary64 numbers. *)
Definition quadratic_binary64 (x : seq Z) (M : fmatrix) : option (Z * Z) :=
  foldl (fun acc t =>
           match acc, dyadic t.2 with
           | Some a, Some d => Some (dyadic_add a (Z.mul t.1 d.1, d.2))
           | _, _ => None
           end)
        (Some (Z0, Z0))
        (flatten [seq [seq (Z.mul xr.1 xm.1, xm.2) | xm <- zip x xr.2]
                 | xr <- zip x M]).

(** The run: a fresh accumulator (preintMeasCov_ = 0) whose accelerometer
    noise block is the symmetric positive semidefinite matrix
    [[1,3,0],[3,9,0],[0,0,0]] (the square of the vector (1,3,0)), the other
    two blocks zero; one call with deltaT = 0.1 at rest, zero rate and zero
    acceleration, where F has identity diagonal blocks and deltaT * I in
    block (0,3). *)
Definition rank_one_block : fmatrix :=
  [:: [:: 1; 3; 0]; [:: 3; 9; 0]; [:: 0; 0; 0]]%float.

Definition Q_binary64 : fmatrix :=
  fblock3x3 fZ3 fZ3 fZ3 fZ3 rank_one_block fZ3 fZ3 fZ3 fZ3.

Definition F_binary64 : fmatrix :=
  fblock3x3 fI3 (fscale fI3 0.1%float) fZ3 fZ3 fI3 fZ3 fZ3 fZ3 fI3.

Definition after_one_call_binary64 : fmatrix :=
  propagate_binary64 F_binary64 (nseq 9 (nseq 9 0%float)) Q_binary64 0.1%float.

(** The integer vector (0,0,0, 3,-1,0, 0,0,0). *)
Definition probe : seq Z :=
  [:: Z0; Z0; Z0; Zpos 3; Zneg 1; Z0; Z0; Z0; Z0].

End Binary64.

(** ** Blocks *)

Section BlockTheory.

Variable R : realFieldType.
Implicit Types A B C D E G : Matrix3 R.

Lemma block3x3_mul A00 A01 A02 A10 A11 A12 A20 A21 A22
                   B00 B01 B02 B10 B11 B12 B20 B21 B22 :
  block3x3 A00 A01 A02 A10 A11 A12 A20 A21 A22 *m
  block3x3 B00 B01 B02 B10 B11 B12 B20 B21 B22 =
  block3x3 (A00 *m B00 + (A01 *m B10 + A02 *m B20))
           (A00 *m B01 + (A01 *m B11 + A02 *m B21))
           (A00 *m B02 + (A01 *m B12 + A02 *m B22))
           (A10 *m B00 + (A11 *m B10 + A12 *m B20))
           (A10 *m B01 + (A11 *m B11 + A12 *m B21))
           (A10 *m B02 + (A11 *m B12 + A12 *m B22))
           (A20 *m B00 + (A21 *m B10 + A22 *m B20))
           (A20 *m B01 + (A21 *m B11 + A22 *m B21))
           (A20 *m B02 + (A21 *m B12 + A22 *m B22)).
Proof.
rewrite /block3x3 mulmx_block mul_row_col mul_mx_row mul_row_block.
rewrite mul_col_mx mul_col_row mul_block_col mulmx_block.
by rewrite add_row_mx add_col_mx add_block_mx.
Qed.

Lemma block3x3_tr A00 A01 A02 A10 A11 A12 A20 A21 A22 :
  (block3x3 A00 A01 A02 A10 A11 A12 A20 A21 A22)^T =
  block3x3 A00^T A10^T A20^T A01^T A11^T A21^T A02^T A12^T A22^T.
Proof. by rewrite /block3x3 tr_block_mx tr_col_mx tr_row_mx tr_block_mx. Qed.

Lemma block3x3_add A00 A01 A02 A10 A11 A12 A20 A21 A22
                   B00 B01 B02 B10 B11 B12 B20 B21 B22 :
  block3x3 A00 A01 A02 A10 A11 A12 A20 A21 A22 +
  block3x3 B00 B01 B02 B10 B11 B12 B20 B21 B22 =
  block3x3 (A00 + B00) (A01 + B01) (A02 + B02)
           (A10 + B10) (A11 + B11) (A12 + B12)
           (A20 + B20) (A21 + B21) (A22 + B22).
Proof. by rewrite /block3x3 add_block_mx add_row_mx add_col_mx add_block_mx. Qed.

Lemma block3x3_scale (a : R) A00 A01 A02 A10 A11 A12 A20 A21 A22 :
  a *: block3x3 A00 A01 A02 A10 A11 A12 A20 A21 A22 =
  block3x3 (a *: A00) (a *: A01) (a *: A02)
           (a *: A10) (a *: A11) (a *: A12)
           (a *: A20) (a *: A21) (a *: A22).
Proof.
by rewrite /block3x3 scale_block_mx scale_row_mx scale_col_mx scale_block_mx.
Qed.

Lemma block3x3_trace A00 A01 A02 A10 A11 A12 A20 A21 A22 :
  \tr (block3x3 A00 A01 A02 A10 A11 A12 A20 A21 A22) =
  \tr A00 + (\tr A11 + \tr A22).
Proof. by rewrite /block3x3 !mxtrace_block. Qed.

Lemma block3x3_0 : block3x3 0 0 0 0 0 0 0 0 0 = 0 :> Matrix9 R.
Proof. by rewrite /block3x3 row_mx0 col_mx0 !block_mx0. Qed.

Lemma block3x3_1 :
  block3x3 1%:M 0 0 0 1%:M 0 0 0 1%:M = 1%:M :> Matrix9 R.
Proof.
by rewrite /block3x3 row_mx0 col_mx0 -scalar_mx_block -scalar_mx_block.
Qed.

(** The three block assignments of the constructor, started from the zero
    matrix, give the block-diagonal matrix. *)
Lemma set_blocks_diag A B C :
  set_block66 C (set_block33 B (set_block00 A 0)) =
  block3x3 A 0 0 0 B 0 0 0 C.
Proof.
rewrite /set_block66 /set_block33 /set_block00 /block3x3 /=.
rewrite !(block_mxKul, block_mxKur, block_mxKdl, block_mxKdr).
have z1 : ursubmx (0 : Matrix9 R) = 0 by apply/matrixP=> i j; rewrite !mxE.
have z2 : dlsubmx (0 : Matrix9 R) = 0 by apply/matrixP=> i j; rewrite !mxE.
have z3 : drsubmx (0 : Matrix9 R) = 0 by apply/matrixP=> i j; rewrite !mxE.
have z4 : ursubmx (0 : 'M[R]_(3 + 3)) = 0 by apply/matrixP=> i j; rewrite !mxE.
have z5 : dlsubmx (0 : 'M[R]_(3 + 3)) = 0 by apply/matrixP=> i j; rewrite !mxE.
by rewrite z1 z2 z3 z4 z5 row_mx0 col_mx0.
Qed.

End BlockTheory.

(** ** Frame properties of the operations *)

Section Frame.

Variable R : realFieldType.
Variable ext : Externals R.

Implicit Type s : PreintegratedMeasurements R.
Implicit Types a w : Vector3 R.
Implicit Type dt : R.
Implicit Type p : option (Pose3 R).
Implicit Types Fo Go : option (Matrix R).

Lemma integrateMeasurement_cov a w dt p Fo Go s :
  preintMeasCov_ (integrateMeasurement ext a w dt p Fo Go s).1.1 =
  transitionF ext a w dt p s *m preintMeasCov_ s *m (transitionF ext a w dt p s)^T
  + dt *: measurementCovariance_ s.
Proof.
rewrite /integrateMeasurement /transitionF.
by case: (correctMeasurementsByBiasAndSensorPose _ _ _ _ _) => cA cW.
Qed.

Lemma integrateMeasurement_measurementCovariance a w dt p Fo Go s :
  measurementCovariance_ (integrateMeasurement ext a w dt p Fo Go s).1.1 =
  measurementCovariance_ s.
Proof.
rewrite /integrateMeasurement.
by case: (correctMeasurementsByBiasAndSensorPose _ _ _ _ _) => cA cW.
Qed.

Lemma integrateMeasurement_Fout a w dt p Fo Go s :
  (integrateMeasurement ext a w dt p Fo Go s).1.2 =
  omap (resize9_assign (transitionF ext a w dt p s)) Fo.
Proof.
rewrite /integrateMeasurement /transitionF.
by case: (correctMeasurementsByBiasAndSensorPose _ _ _ _ _) => cA cW.
Qed.

Lemma integrateMeasurement_slots a w dt p Fo Go s :
  (integrateMeasurement ext a w dt p Fo Go s).1.1 =
  (integrateMeasurement ext a w dt p None None s).1.1.
Proof.
rewrite /integrateMeasurement.
by case: (correctMeasurementsByBiasAndSensorPose _ _ _ _ _) => cA cW.
Qed.

Lemma exec_measurementCovariance s o :
  measurementCovariance_ (exec ext s o) = measurementCovariance_ s.
Proof.
by case: o => [|a w dt p Fo Go] //=; rewrite integrateMeasurement_measurementCovariance.
Qed.

Lemma run_measurementCovariance ops s :
  measurementCovariance_ (run ext ops s) = measurementCovariance_ s.
Proof.
rewrite /run; elim: ops s => [|o ops IH] s //=.
by rewrite IH exec_measurementCovariance.
Qed.

Lemma ctor_measurementCovariance (bias : ConstantBias R) accCov omegaCov intCov use2nd :
  measurementCovariance_
    (PreintegratedMeasurements_ctor bias accCov omegaCov intCov use2nd) =
  block3x3 intCov 0 0 0 accCov 0 0 0 omegaCov.
Proof. by rewrite /PreintegratedMeasurements_ctor /= set_blocks_diag. Qed.

(** C2.  Every call of integrateMeasurement, on any state reached from the
    constructor by resets and integrations, replaces preintMeasCov by
    F * preintMeasCov * F^T + Q * deltaT, where F is the transition matrix
    of the call and Q is the block-diagonal matrix of the constructor's
    arguments: integration-error covariance in block (0,0), accelerometer
    covariance in block (3,3), gyroscope covariance in block (6,6), zero
    elsewhere. *)
Theorem covariance_update (bias : ConstantBias R) accCov omegaCov intCov use2nd
    ops a w dt p Fo Go :
  let s := run ext ops
             (PreintegratedMeasurements_ctor bias accCov omegaCov intCov use2nd) in
  let F := transitionF ext a w dt p s in
  measurementCovariance_ s = block3x3 intCov 0 0 0 accCov 0 0 0 omegaCov /\
  preintMeasCov_ (integrateMeasurement ext a w dt p Fo Go s).1.1 =
  F *m preintMeasCov_ s *m F^T +
  dt *: block3x3 intCov 0 0 0 accCov 0 0 0 omegaCov.
Proof.
move=> s F; have Q : measurementCovariance_ s = block3x3 intCov 0 0 0 accCov 0 0 0 omegaCov.
  by rewrite /s run_measurementCovariance ctor_measurementCovariance.
by split=> //; rewrite integrateMeasurement_cov Q.
Qed.

(** C6.  resetIntegration sets the rotation delta to the identity, the
    velocity and position deltas and the bias Jacobians to zero and
    preintMeasCov to the zero matrix; a second reset changes nothing. *)
Theorem resetIntegration_clears s :
  let s' := resetIntegration s in
  [/\ deltaRij_ (base s') = Rot3_identity R,
      deltaVij_ (base s') = 0 /\ deltaPij_ (base s') = 0,
      biasJacobians (base s') = zeroBiasJacobians R,
      preintMeasCov_ s' = 0 &
      resetIntegration s' = s'].
Proof. by []. Qed.

(** C7.  A supplied Fout slot holds, after the call, the 9x9 matrix F of
    that call's covariance update; an absent slot stays absent, for Fout
    and for Gout; and the state after the call does not depend on the
    slots. *)
Theorem optional_outputs a w dt p Fo Go s :
  let r := integrateMeasurement ext a w dt p Fo Go s in
  let F := transitionF ext a w dt p s in
  [/\ match Fo with
      | Some _ => r.1.2 = Some (@DynMatrix R (3 + (3 + 3)) (3 + (3 + 3)) F)
      | None => r.1.2 = None
      end,
      isSome r.2 = isSome Go,
      preintMeasCov_ r.1.1 =
      F *m preintMeasCov_ s *m F^T + dt *: measurementCovariance_ s &
      r.1.1 = (integrateMeasurement ext a w dt p None None s).1.1].
Proof.
move=> r F; rewrite /r /F {r F}; split.
- by rewrite integrateMeasurement_Fout; case: Fo.
- rewrite /integrateMeasurement.
  by case: (correctMeasurementsByBiasAndSensorPose _ _ _ _ _) => cA cW; case: Go.
- exact: integrateMeasurement_cov.
- exact: integrateMeasurement_slots.
Qed.

(** C9.  resetIntegration keeps measurementCovariance (and the bias copy
    and the integration flag of the base part); and no sequence of resets
    and integrations changes measurementCovariance. *)
Theorem measurementCovariance_fixed s ops :
  [/\ measurementCovariance_ (resetIntegration s) = measurementCovariance_ s,
      biasHat (base (resetIntegration s)) = biasHat (base s),
      use2ndOrderIntegration (base (resetIntegration s)) =
      use2ndOrderIntegration (base s) &
      measurementCovariance_ (run ext ops s) = measurementCovariance_ s].
Proof. by split=> //; exact: run_measurementCovariance. Qed.

End Frame.

(** ** Symmetric positive semidefinite matrices *)

Section Definite.

Variable R : realFieldType.

Lemma symmetric_congr n (F A : 'M[R]_n) :
  symmetric A -> symmetric (F *m A *m F^T).
Proof. by rewrite /symmetric => sA; rewrite !trmx_mul trmxK sA mulmxA. Qed.

Lemma symmetric_add n (A B : 'M[R]_n) :
  symmetric A -> symmetric B -> symmetric (A + B).
Proof. by rewrite /symmetric => sA sB; rewrite linearD /= sA sB. Qed.

Lemma symmetric_scale n (a : R) (A : 'M[R]_n) :
  symmetric A -> symmetric (a *: A).
Proof. by rewrite /symmetric => sA; rewrite linearZ /= sA. Qed.

Lemma symmetric_block3x3_diag (A B C : Matrix3 R) :
  symmetric A -> symmetric B -> symmetric C ->
  symmetric (block3x3 A 0 0 0 B 0 0 0 C).
Proof.
by rewrite /symmetric => sA sB sC; rewrite block3x3_tr sA sB sC !trmx0.
Qed.

Lemma psd_congr n (F A : 'M[R]_n) : psd A -> psd (F *m A *m F^T).
Proof.
move=> pA x; have -> : x *m (F *m A *m F^T) *m x^T = (x *m F) *m A *m (x *m F)^T.
  by rewrite trmx_mul !mulmxA.
exact: pA.
Qed.

Lemma psd_add n (A B : 'M[R]_n) : psd A -> psd B -> psd (A + B).
Proof.
by move=> pA pB x; rewrite mulmxDr mulmxDl mxE addr_ge0 ?pA ?pB.
Qed.

Lemma psd_scale n (a : R) (A : 'M[R]_n) : 0 <= a -> psd A -> psd (a *: A).
Proof.
by move=> a0 pA x; rewrite -scalemxAr -scalemxAl mxE mulr_ge0 ?pA.
Qed.

Lemma psd_0 n : psd (0 : 'M[R]_n).
Proof. by move=> x; rewrite mulmx0 mul0mx mxE. Qed.

Lemma quadratic_block_diag n1 n2 (A : 'M[R]_n1) (D : 'M[R]_n2)
    (x : 'rV[R]_(n1 + n2)) :
  (x *m block_mx A 0 0 D *m x^T) ord0 ord0 =
  (lsubmx x *m A *m (lsubmx x)^T) ord0 ord0 +
  (rsubmx x *m D *m (rsubmx x)^T) ord0 ord0.
Proof.
rewrite -{1 2}(hsubmxK x) mul_row_block tr_row_mx mul_row_col.
by rewrite !mulmx0 addr0 add0r mxE.
Qed.

Lemma psd_block_diag n1 n2 (A : 'M[R]_n1) (D : 'M[R]_n2) :
  psd A -> psd D -> psd (block_mx A 0 0 D).
Proof. by move=> pA pD x; rewrite quadratic_block_diag addr_ge0 ?pA ?pD. Qed.

Lemma psd_block3x3_diag (A B C : Matrix3 R) :
  psd A -> psd B -> psd C -> psd (block3x3 A 0 0 0 B 0 0 0 C).
Proof.
move=> pA pB pC; rewrite /block3x3 row_mx0 col_mx0.
by apply: psd_block_diag => //; apply: psd_block_diag.
Qed.

Lemma sym_psd_block3x3_diag (A B C : Matrix3 R) :
  sym_psd A -> sym_psd B -> sym_psd C ->
  sym_psd (block3x3 A 0 0 0 B 0 0 0 C).
Proof.
move=> [sA pA] [sB pB] [sC pC]; split.
  exact: symmetric_block3x3_diag.
exact: psd_block3x3_diag.
Qed.

Lemma sym_psd_propagate n (F P Q : 'M[R]_n) (dt : R) :
  0 <= dt -> sym_psd P -> sym_psd Q -> sym_psd (F *m P *m F^T + dt *: Q).
Proof.
move=> dt0 [sP pP] [sQ pQ]; split.
  by apply: symmetric_add; [apply: symmetric_congr | apply: symmetric_scale].
by apply: psd_add; [apply: psd_congr | apply: psd_scale].
Qed.

Lemma quadratic_1 n (x : 'rV[R]_n) :
  (x *m 1%:M *m x^T) ord0 ord0 = \sum_j x ord0 j ^+ 2.
Proof. by rewrite mulmx1 mxE; apply: eq_bigr => j _; rewrite mxE expr2. Qed.

Lemma sym_psd_1 n : sym_psd (1%:M : 'M[R]_n).
Proof.
split; first exact: trmx1.
by move=> x; rewrite quadratic_1 sumr_ge0 // => j _; rewrite sqr_ge0.
Qed.

Lemma pd_1 n : pd (1%:M : 'M[R]_n).
Proof.
move=> x x0; have sq j : true -> 0 <= x ord0 j ^+ 2 by rewrite sqr_ge0.
rewrite quadratic_1 lt_neqAle sumr_ge0 // andbT eq_sym psumr_eq0 //.
apply: contra x0 => /allP x0; apply/eqP/rowP => j; rewrite mxE.
have := x0 j; rewrite mem_index_enum /= sqrf_eq0 => /(_ isT) /eqP.
by rewrite (ord1 ord0).
Qed.

Lemma diag_entry n (A : 'M[R]_n) (i : 'I_n) :
  (unit_row R i *m A *m (unit_row R i)^T) ord0 ord0 = A i i.
Proof. by rewrite /unit_row -rowE trmx_delta -colE !mxE. Qed.

Lemma pd_trace_gt0 (A : Matrix3 R) : pd A -> 0 < \tr A.
Proof.
move=> pA; have d i : 0 < A i i.
  rewrite -diag_entry; apply: pA; apply/eqP => /matrixP /(_ ord0 i).
  by rewrite /unit_row !mxE !eqxx /= => /eqP; rewrite oner_eq0.
by rewrite /mxtrace !big_ord_recl big_ord0 addr0 !addr_gt0.
Qed.

End Definite.

(** ** The covariance recursion *)

Section Covariance.

Variable R : realFieldType.
Variable ext : Externals R.

Implicit Type s : PreintegratedMeasurements R.
Implicit Types a w : Vector3 R.
Implicit Type dt : R.
Implicit Type p : option (Pose3 R).
Implicit Types Fo Go : option (Matrix R).

Lemma cov_inv_exec s o : positive_deltaT o -> cov_inv s -> cov_inv (exec ext s o).
Proof.
case: o => [_|a w dt p Fo Go /= dt0] [iQ iP]; split=> //=.
- by split; [exact: trmx0 | exact: psd_0].
- by rewrite integrateMeasurement_measurementCovariance.
- by rewrite integrateMeasurement_cov; apply: sym_psd_propagate => //; exact: ltW.
Qed.

Lemma cov_inv_run ops s :
  all (@positive_deltaT R) ops -> cov_inv s -> cov_inv (run ext ops s).
Proof.
rewrite /run; elim: ops s => [|o ops IH] s //= /andP [o0 ops0] inv.
by apply: IH => //; apply: cov_inv_exec.
Qed.

(** C4, in exact arithmetic.  preintMeasCov is the zero matrix after
    construction and after
    every reset, and it is symmetric positive semidefinite after every
    sequence of resets and integrations with deltaT > 0, when the three
    noise blocks given to the constructor are symmetric positive
    semidefinite. *)
Theorem preintMeasCov_sym_psd (bias : ConstantBias R) accCov omegaCov intCov
    use2nd ops :
  sym_psd accCov -> sym_psd omegaCov -> sym_psd intCov ->
  all (@positive_deltaT R) ops ->
  let s0 := PreintegratedMeasurements_ctor bias accCov omegaCov intCov use2nd in
  [/\ preintMeasCov_ s0 = 0,
      preintMeasCov_ (resetIntegration (run ext ops s0)) = 0 &
      sym_psd (preintMeasCov_ (run ext ops s0))].
Proof.
move=> pa pw pi pos s0; split=> //.
suff: cov_inv (run ext ops s0) by case.
apply: cov_inv_run => //; split.
  by rewrite ctor_measurementCovariance; apply: sym_psd_block3x3_diag.
by split; [exact: trmx0 | exact: psd_0].
Qed.


End Covariance.

(** ** Calls with a stationary gyroscope

    With zero bias, no sensor pose and a zero angular rate the rotation
    delta stays at the identity, and a call reaches the Lie-group helpers
    only at the zero rotation vector and at the identity rotation, where
    their values are fixed by the hypotheses below.  The transition matrix
    is then
<<
      [ I   dt I   0             ]
      [ 0   I      -dt skew(acc) ]
      [ 0   0      I             ]
>>
*)

Section ZeroRate.

Variable R : realFieldType.
Variable ext : Externals R.

Hypothesis ext_exact : exact_at_zero ext.

Implicit Type s : PreintegratedMeasurements R.

Lemma at_rest_transitionF s a dt :
  at_rest s ->
  transitionF ext a 0 dt None s =
  block3x3 1%:M (dt *: 1%:M) 0 0 1%:M (dt *: - skewSymmetric a) 0 0 1%:M.
Proof.
have [Expmap0 Logmap1 rightJacobian0 rightJacobianInverse0 inverse1] := ext_exact.
case=> ba bw dR.
rewrite /transitionF /correctMeasurementsByBiasAndSensorPose /=.
rewrite /thetaRij /updatePreintegratedMeasurements /updatePreintegratedJacobians /=.
rewrite ba bw !subr0 scaler0 Expmap0 dR /Rot3_compose /Rot3_matrix mulmx1 Logmap1.
by rewrite rightJacobian0 rightJacobianInverse0 inverse1 !mulmx1 mulNmx mul1mx.
Qed.

Lemma at_rest_integrate s a dt Fo Go :
  at_rest s -> at_rest (integrateMeasurement ext a 0 dt None Fo Go s).1.1.
Proof.
have [Expmap0 _ _ _ _] := ext_exact.
case=> ba bw dR; rewrite /integrateMeasurement /correctMeasurementsByBiasAndSensorPose /=.
split=> //; rewrite /updatePreintegratedMeasurements /= bw subr0 scaler0 Expmap0.
by rewrite dR /Rot3_compose mulmx1.
Qed.

Lemma propagate_blocks (t : R) (H A B C B' D E C' E' G Q1 Q2 Q3 : Matrix3 R) :
  let F := block3x3 1%:M (t *: 1%:M) 0 0 1%:M H 0 0 1%:M in
  F *m block3x3 A B C B' D E C' E' G *m F^T
  + t *: block3x3 Q1 0 0 0 Q2 0 0 0 Q3 =
  block3x3 (A + t *: B' + t *: (B + t *: D) + t *: Q1)
           (B + t *: D + (C + t *: E) *m H^T)
           (C + t *: E)
           (B' + H *m C' + t *: (D + H *m E'))
           (D + H *m E' + (E + H *m G) *m H^T + t *: Q2)
           (E + H *m G)
           (C' + t *: E')
           (E' + G *m H^T)
           (G + t *: Q3).
Proof.
move=> F; rewrite /F block3x3_tr !block3x3_mul block3x3_scale block3x3_add.
rewrite !(trmx0, trmx1, mul1mx, mulmx1, mul0mx, mulmx0, addr0, add0r, scaler0).
by rewrite !linearZ /= !trmx1 -?scalemxAl -?scalemxAr ?(mul1mx, mulmx1).
Qed.

Lemma skewSymmetricN (v : Vector3 R) : skewSymmetric (- v) = - skewSymmetric v.
Proof.
apply/matrixP=> i j; rewrite !mxE.
by case: i => [[|[|[|i]]] Hi] //; case: j => [[|[|[|j]]] Hj] //=;
   rewrite ?mxE ?oppr0 ?opprK.
Qed.

Lemma skewSymmetric0 : skewSymmetric (0 : Vector3 R) = 0.
Proof.
apply/matrixP=> i j; rewrite !mxE.
by case: i => [[|[|[|i]]] Hi] //; case: j => [[|[|[|j]]] Hj] //=;
   rewrite ?mxE ?oppr0.
Qed.

Lemma skewSymmetric_trace (v : Vector3 R) :
  \tr (skewSymmetric v *m (skewSymmetric v)^T) =
  2 * (v o0 ord0 ^+ 2 + v o1 ord0 ^+ 2 + v o2 ord0 ^+ 2).
Proof.
rewrite /mxtrace !big_ord_recl big_ord0 !mxE !big_ord_recl !big_ord0 !mxE /=.
ring.
Qed.

End ZeroRate.

(** ** Three calls on which the trace of the covariance drops

    Two calls with the accelerometer reading [acc_up] over a unit time step,
    then one with [acc_down] over half a time step, all with a stationary
    gyroscope.  The cross-covariance between velocity and rotation error
    built by the second call is cancelled by the third, and the trace of the
    covariance goes down by 41. *)

Section ThreeCalls.

Variable R : realFieldType.
Variable ext : Externals R.
Hypothesis ext_exact : exact_at_zero ext.

Lemma fresh_at_rest : at_rest (fresh R).
Proof. by []. Qed.

Lemma exec_still s a dt :
  exec ext s (still a dt) = (integrateMeasurement ext a 0 dt None None None s).1.1.
Proof. by []. Qed.

Lemma acc_down_up : acc_down R = - acc_up R.
Proof. by rewrite /acc_down /acc_up scaleNr. Qed.

Lemma acc_up_trace :
  \tr (skewSymmetric (acc_up R) *m (skewSymmetric (acc_up R))^T) = 200%:R.
Proof.
rewrite skewSymmetric_trace /acc_up !mxE /=.
ring.
Qed.

Lemma trace_drop :
  let s2 := run ext [:: still (acc_up R) 1; still (acc_up R) 1] (fresh R) in
  let s3 := (integrateMeasurement ext (acc_down R) 0 2^-1 None None None s2).1.1 in
  \tr (preintMeasCov_ s3) = \tr (preintMeasCov_ s2) - 41%:R.
Proof.
move=> s2 s3; pose S := skewSymmetric (acc_up R).
pose s1 := exec ext (fresh R) (still (acc_up R) 1).
have e2 : s2 = exec ext s1 (still (acc_up R) 1) by [].
have r1 : at_rest s1 by apply: (at_rest_integrate ext_exact).
have r2 : at_rest s2 by rewrite e2; apply: (at_rest_integrate ext_exact).
have Q2 : measurementCovariance_ s2 = block3x3 1%:M 0 0 0 1%:M 0 0 0 1%:M.
  by rewrite /s2 run_measurementCovariance ctor_measurementCovariance.
have P1 : preintMeasCov_ s1 = block3x3 1%:M 0 0 0 1%:M 0 0 0 1%:M.
  rewrite /s1 exec_still integrateMeasurement_cov (at_rest_transitionF ext_exact) //.
  by rewrite mulmx0 mul0mx add0r scale1r ctor_measurementCovariance.
have P2 : preintMeasCov_ s2 =
          block3x3 (1%:M + 1%:M + 1%:M) 1%:M 0
                   1%:M (1%:M + S *m S^T + 1%:M) (- S)
                   0 (- S)^T (1%:M + 1%:M).
  rewrite e2 exec_still integrateMeasurement_cov (at_rest_transitionF ext_exact) //.
  rewrite exec_measurementCovariance ctor_measurementCovariance P1.
  rewrite propagate_blocks.
  rewrite !(mul1mx, mulmx1, mul0mx, mulmx0, addr0, add0r, scaler0, scale1r).
  by rewrite linearN /= mulNmx mulmxN opprK.
rewrite /s3 integrateMeasurement_cov (at_rest_transitionF ext_exact) // Q2 P2.
rewrite acc_down_up skewSymmetricN opprK -/S propagate_blocks !block3x3_trace.
rewrite ?(mul1mx, mulmx1, mul0mx, mulmx0, addr0, add0r, scaler0, scale1r).
rewrite !linearZ /= !linearN /= -?scalemxAl -?scalemxAr ?mulmxDr ?mulNmx ?mulmxN.
rewrite !mulmx1; have -> : - S + 2^-1 *: (S + S) = 0.
  by rewrite -mulr2n -scaler_nat scalerA mulVf ?pnatr_eq0 // scale1r addNr.
rewrite mul0mx !(mxtraceD, mxtraceZ, mxtrace1, mxtrace0, raddfN) /=.
rewrite ?mxtraceZ ?linearZ /= /S acc_up_trace.
lra.
Qed.

Lemma trace_drop_lt :
  let s2 := run ext [:: still (acc_up R) 1; still (acc_up R) 1] (fresh R) in
  let s3 := (integrateMeasurement ext (acc_down R) 0 2^-1 None None None s2).1.1 in
  \tr (preintMeasCov_ s3) < \tr (preintMeasCov_ s2).
Proof. by have := trace_drop; cbv zeta => ->; rewrite ltrBlDr ltrDl ltr0n. Qed.

End ThreeCalls.

(** ** The small-angle instance and the first call on a fresh accumulator *)

Section Instance.

Variable R : realFieldType.

Lemma smallAngle_exact_at_zero : exact_at_zero (smallAngle R).
Proof.
split=> //=; first by rewrite skewSymmetric0 addr0.
- by rewrite trmx1 subrr scaler0; apply/colP=> i; rewrite !mxE; case: (i : nat) => [|[|k]].
- exact: trmx1.
Qed.

Lemma positive_two_calls (a : Vector3 R) :
  all (@positive_deltaT R) [:: still a 1; still a 1].
Proof. by rewrite /= ltr01. Qed.

Lemma positive_call_reset_call (a : Vector3 R) :
  all (@positive_deltaT R) [:: still a 1; OpReset R; still a 1].
Proof. by rewrite /= ltr01. Qed.

Lemma half_gt0 : 0 < 2^-1 :> R.
Proof. by rewrite invr_gt0 ltr0n. Qed.

(** On a fresh accumulator the propagated term vanishes: the first call
    leaves [deltaT] times the noise matrix, whatever the helpers compute. *)
Lemma first_call_cov (ext : Externals R) a w dt p Fo Go :
  preintMeasCov_ (integrateMeasurement ext a w dt p Fo Go (fresh R)).1.1 =
  dt *: block3x3 1%:M 0 0 0 1%:M 0 0 0 1%:M.
Proof.
by rewrite integrateMeasurement_cov mulmx0 mul0mx add0r ctor_measurementCovariance.
Qed.

Lemma first_call_trace (ext : Externals R) a w dt p Fo Go :
  \tr (preintMeasCov_ (integrateMeasurement ext a w dt p Fo Go (fresh R)).1.1) =
  dt * 9%:R.
Proof.
rewrite first_call_cov mxtraceZ block3x3_trace !mxtrace1 -!natrD.
by rewrite !addnE.
Qed.

End Instance.

(** ** The statements run on concrete inputs over the rationals *)


(** The invariant of C4 on a run with a reset in the middle. *)
Lemma preintMeasCov_sym_psd_witness :
  let ops := [:: still (acc_up rat) 1; OpReset rat; still (acc_up rat) 1] in
  sym_psd (1%:M : Matrix3 rat) /\
  all (@positive_deltaT rat) ops /\
  [/\ preintMeasCov_ (fresh rat) = 0,
      preintMeasCov_ (resetIntegration (run (smallAngle rat) ops (fresh rat))) = 0 &
      sym_psd (preintMeasCov_ (run (smallAngle rat) ops (fresh rat)))].
Proof.
move=> ops; split; first exact: sym_psd_1.
split; first exact: positive_call_reset_call.
exact: (@preintMeasCov_sym_psd rat (smallAngle rat) (zeroBias rat)
          1%:M 1%:M 1%:M false ops (sym_psd_1 _ _) (sym_psd_1 _ _)
          (sym_psd_1 _ _) (positive_call_reset_call _)).
Defined.


(** ** Further properties of the covariance recursion *)

Section Relational.

Variable R : realFieldType.
Variable ext : Externals R.

Implicit Types s : PreintegratedMeasurements R.
Implicit Types a w : Vector3 R.
Implicit Type dt : R.
Implicit Type p : option (Pose3 R).
Implicit Types Fo Go : option (Matrix R).

Lemma run_cons o ops s : run ext (o :: ops) s = run ext ops (exec ext s o).
Proof. by []. Qed.

Lemma exec_reset s : exec ext s (OpReset R) = resetIntegration s.
Proof. by []. Qed.

Lemma exec_integrate s a w dt p Fo Go :
  exec ext s (OpIntegrate a w dt p Fo Go) =
  (integrateMeasurement ext a w dt p Fo Go s).1.1.
Proof. by []. Qed.

(** The base part evolves on its own: neither the two covariance members
    nor the output slots enter it, and the transition matrix is a function
    of the base part. *)
Lemma transitionF_base s1 s2 a w dt p :
  base s1 = base s2 ->
  transitionF ext a w dt p s1 = transitionF ext a w dt p s2.
Proof. by rewrite /transitionF => ->. Qed.

Lemma integrateMeasurement_base s1 s2 a w dt p Fo Go Fo' Go' :
  base s1 = base s2 ->
  base (integrateMeasurement ext a w dt p Fo Go s1).1.1 =
  base (integrateMeasurement ext a w dt p Fo' Go' s2).1.1.
Proof.
rewrite /integrateMeasurement => ->.
by case: (correctMeasurementsByBiasAndSensorPose _ _ _ _ _) => cA cW.
Qed.

Lemma exec_base s1 s2 o :
  base s1 = base s2 -> base (exec ext s1 o) = base (exec ext s2 o).
Proof.
case: o => [|a w dt p Fo Go] e; last exact: integrateMeasurement_base.
by rewrite [LHS]/= [RHS]/= e.
Qed.

Lemma run_base ops s1 s2 :
  base s1 = base s2 -> base (run ext ops s1) = base (run ext ops s2).
Proof.
elim: ops s1 s2 => [|o ops IH] s1 s2 e; first exact: e.
by rewrite [X in base X = _]run_cons [X in _ = base X]run_cons; apply: IH; apply: exec_base.
Qed.

(** One step of the recursion on a combination and on a difference of
    covariances. *)
Lemma propagate_combination n (F P1 P2 Q1 Q2 : 'M[R]_n) (x y dt : R) :
  F *m (x *: P1 + y *: P2) *m F^T + dt *: (x *: Q1 + y *: Q2) =
  x *: (F *m P1 *m F^T + dt *: Q1) + y *: (F *m P2 *m F^T + dt *: Q2).
Proof.
rewrite mulmxDr mulmxDl -!scalemxAr -!scalemxAl !scalerDr !scalerA.
by rewrite addrACA [dt * x]mulrC [dt * y]mulrC.
Qed.

Lemma propagate_difference n (F P1 P2 Q1 Q2 : 'M[R]_n) (dt : R) :
  (F *m P2 *m F^T + dt *: Q2) - (F *m P1 *m F^T + dt *: Q1) =
  F *m (P2 - P1) *m F^T + dt *: (Q2 - Q1).
Proof. by rewrite mulmxBr mulmxBl scalerBr opprD addrACA. Qed.

Lemma combination_exec (x y : R) s1 s2 s3 o :
  base s1 = base s3 -> base s2 = base s3 ->
  measurementCovariance_ s3 =
    x *: measurementCovariance_ s1 + y *: measurementCovariance_ s2 ->
  preintMeasCov_ s3 = x *: preintMeasCov_ s1 + y *: preintMeasCov_ s2 ->
  preintMeasCov_ (exec ext s3 o) =
    x *: preintMeasCov_ (exec ext s1 o) + y *: preintMeasCov_ (exec ext s2 o).
Proof.
move=> b1 b2 eQ eP; case: o => [|a w dt p Fo Go].
  by rewrite [LHS]/= [RHS]/= !scaler0 addr0.
rewrite [LHS]integrateMeasurement_cov.
rewrite [X in _ = x *: X + _]integrateMeasurement_cov.
rewrite [X in _ = _ + y *: X]integrateMeasurement_cov.
rewrite (transitionF_base _ _ _ _ b1) (transitionF_base _ _ _ _ b2) eQ eP.
exact: propagate_combination.
Qed.

Lemma combination_run (x y : R) ops s1 s2 s3 :
  base s1 = base s3 -> base s2 = base s3 ->
  measurementCovariance_ s3 =
    x *: measurementCovariance_ s1 + y *: measurementCovariance_ s2 ->
  preintMeasCov_ s3 = x *: preintMeasCov_ s1 + y *: preintMeasCov_ s2 ->
  preintMeasCov_ (run ext ops s3) =
    x *: preintMeasCov_ (run ext ops s1) + y *: preintMeasCov_ (run ext ops s2).
Proof.
elim: ops s1 s2 s3 => [|o ops IH] s1 s2 s3 b1 b2 eQ eP; first exact: eP.
rewrite [X in preintMeasCov_ X = _]run_cons.
rewrite [X in _ = x *: preintMeasCov_ X + _]run_cons.
rewrite [X in _ = _ + y *: preintMeasCov_ X]run_cons.
apply: IH; try exact: exec_base.
  rewrite [LHS]exec_measurementCovariance.
  rewrite [X in _ = x *: X + _]exec_measurementCovariance.
  by rewrite [X in _ = _ + y *: X]exec_measurementCovariance.
exact: combination_exec.
Qed.



(** X2.  With all three noise blocks zero, as in the accumulator of a
    default-constructed factor, preintMeasCov is the zero matrix after
    every sequence of operations, whatever the time steps. *)
Theorem zero_noise_zero_covariance (bias : ConstantBias R) use2nd ops :
  preintMeasCov_
    (run ext ops (PreintegratedMeasurements_ctor bias 0 0 0 use2nd)) = 0.
Proof.
set s0 := PreintegratedMeasurements_ctor bias 0 0 0 use2nd.
have := @combination_run 0 0 ops s0 s0 s0 erefl erefl.
rewrite !scale0r addr0; apply; last by [].
by rewrite ctor_measurementCovariance block3x3_0.
Qed.

(** X5.  The deltas and bias Jacobians after a sequence of operations, and
    the transition matrix of the next call, do not depend on the noise
    blocks given to the constructor. *)
Theorem base_independent_of_noise (bias : ConstantBias R) use2nd ops
    accCov1 omegaCov1 intCov1 accCov2 omegaCov2 intCov2 a w dt p :
  let s1 := run ext ops (PreintegratedMeasurements_ctor
                           bias accCov1 omegaCov1 intCov1 use2nd) in
  let s2 := run ext ops (PreintegratedMeasurements_ctor
                           bias accCov2 omegaCov2 intCov2 use2nd) in
  base s1 = base s2 /\
  transitionF ext a w dt p s1 = transitionF ext a w dt p s2.
Proof.
move=> s1 s2; have e : base s1 = base s2 by apply: run_base.
split; [exact: e | exact: transitionF_base].
Qed.

End Relational.

Section NoiseOrder.

Variable R : realFieldType.
Variable ext : Externals R.

Implicit Types s : PreintegratedMeasurements R.

Lemma block3x3_sub (A00 A01 A02 A10 A11 A12 A20 A21 A22
                    B00 B01 B02 B10 B11 B12 B20 B21 B22 : Matrix3 R) :
  block3x3 A00 A01 A02 A10 A11 A12 A20 A21 A22 -
  block3x3 B00 B01 B02 B10 B11 B12 B20 B21 B22 =
  block3x3 (A00 - B00) (A01 - B01) (A02 - B02)
           (A10 - B10) (A11 - B11) (A12 - B12)
           (A20 - B20) (A21 - B21) (A22 - B22).
Proof.
by rewrite -[- block3x3 _ _ _ _ _ _ _ _ _]scaleN1r block3x3_scale block3x3_add
           !scaleN1r.
Qed.

Lemma sym_psd_0 n : sym_psd (0 : 'M[R]_n).
Proof. by split; [exact: trmx0 | exact: psd_0]. Qed.

Lemma symmetric_exec s o :
  symmetric (measurementCovariance_ s) -> symmetric (preintMeasCov_ s) ->
  symmetric (preintMeasCov_ (exec ext s o)).
Proof.
case: o => [|a w dt p Fo Go] sQ sP; first exact: trmx0.
rewrite [X in symmetric X]integrateMeasurement_cov.
by apply: symmetric_add; [apply: symmetric_congr | apply: symmetric_scale].
Qed.

Lemma symmetric_run ops s :
  symmetric (measurementCovariance_ s) -> symmetric (preintMeasCov_ s) ->
  symmetric (preintMeasCov_ (run ext ops s)).
Proof.
elim: ops s => [|o ops IH] s sQ sP; first exact: sP.
rewrite [X in symmetric (preintMeasCov_ X)]run_cons; apply: IH.
  by rewrite [X in symmetric X]exec_measurementCovariance.
exact: symmetric_exec.
Qed.


Lemma psd_trace_ge0 n (A : 'M[R]_n) : psd A -> 0 <= \tr A.
Proof.
move=> pA; rewrite /mxtrace; apply: sumr_ge0 => i _.
by rewrite -diag_entry.
Qed.

End NoiseOrder.

Section BlockRecursion.

Variable R : realFieldType.
Variable ext : Externals R.

Implicit Types s : PreintegratedMeasurements R.
Implicit Types A : Matrix3 R.

Lemma block3x3K (M : Matrix9 R) :
  block3x3 (block00 M) (block01 M) (block02 M)
           (block10 M) (block11 M) (block12 M)
           (block20 M) (block21 M) (block22 M) = M.
Proof.
by rewrite /block3x3 /block00 /block01 /block02 /block10 /block11 /block12
           /block20 /block21 /block22 hsubmxK vsubmxK !submxK.
Qed.

Lemma block00K A00 A01 A02 A10 A11 A12 A20 A21 A22 :
  block00 (block3x3 A00 A01 A02 A10 A11 A12 A20 A21 A22) = A00.
Proof. by rewrite /block00 /block3x3 block_mxKul. Qed.

Lemma block11K A00 A01 A02 A10 A11 A12 A20 A21 A22 :
  block11 (block3x3 A00 A01 A02 A10 A11 A12 A20 A21 A22) = A11.
Proof. by rewrite /block11 /block3x3 block_mxKdr block_mxKul. Qed.

Lemma block12K A00 A01 A02 A10 A11 A12 A20 A21 A22 :
  block12 (block3x3 A00 A01 A02 A10 A11 A12 A20 A21 A22) = A12.
Proof. by rewrite /block12 /block3x3 block_mxKdr block_mxKur. Qed.

Lemma block22K A00 A01 A02 A10 A11 A12 A20 A21 A22 :
  block22 (block3x3 A00 A01 A02 A10 A11 A12 A20 A21 A22) = A22.
Proof. by rewrite /block22 /block3x3 block_mxKdr block_mxKdr. Qed.

Lemma transitionF_shape a w dt p s :
  let F := transitionF ext a w dt p s in
  F = block3x3 1%:M (dt *: 1%:M) 0 0 1%:M (block12 F) 0 0 (block22 F).
Proof.
rewrite /transitionF.
case: (correctMeasurementsByBiasAndSensorPose _ _ _ _ _) => cA cW.
by lazy beta iota zeta; rewrite block12K block22K.
Qed.

Lemma propagate_blocks_general (t : R)
    (H K A B C B' D E C' E' G Q00 Q01 Q02 Q10 Q11 Q12 Q20 Q21 Q22 : Matrix3 R) :
  let F := block3x3 1%:M (t *: 1%:M) 0 0 1%:M H 0 0 K in
  F *m block3x3 A B C B' D E C' E' G *m F^T
  + t *: block3x3 Q00 Q01 Q02 Q10 Q11 Q12 Q20 Q21 Q22 =
  block3x3 (A + t *: B' + t *: (B + t *: D) + t *: Q00)
           (B + t *: D + (C + t *: E) *m H^T + t *: Q01)
           ((C + t *: E) *m K^T + t *: Q02)
           (B' + H *m C' + t *: (D + H *m E') + t *: Q10)
           (D + H *m E' + (E + H *m G) *m H^T + t *: Q11)
           ((E + H *m G) *m K^T + t *: Q12)
           (K *m C' + t *: (K *m E') + t *: Q20)
           (K *m E' + K *m G *m H^T + t *: Q21)
           (K *m G *m K^T + t *: Q22).
Proof.
move=> F; rewrite /F block3x3_tr !block3x3_mul block3x3_scale block3x3_add.
rewrite !(trmx0, trmx1, mul1mx, mulmx1, mul0mx, mulmx0, addr0, add0r, scaler0).
by rewrite !linearZ /= !trmx1 -?scalemxAl -?scalemxAr ?(mul1mx, mulmx1).
Qed.

(** X6.  The diagonal blocks of preintMeasCov after a call, with F the
    transition matrix of the call, H its block (3,6) and K its block (6,6):
    the position block is fed by the velocity block through deltaT and by
    nothing else; the velocity block is fed by the rotation block through
    H; the rotation block is carried by K alone and does not depend on the
    position and velocity blocks. *)
Theorem covariance_blocks a w dt p Fo Go s :
  let F := transitionF ext a w dt p s in
  let H := block12 F in
  let K := block22 F in
  let P := preintMeasCov_ s in
  let Q := measurementCovariance_ s in
  let P' := preintMeasCov_ (integrateMeasurement ext a w dt p Fo Go s).1.1 in
  [/\ block00 P' =
      block00 P + dt *: block10 P + dt *: (block01 P + dt *: block11 P)
      + dt *: block00 Q,
      block11 P' =
      block11 P + H *m block21 P + (block12 P + H *m block22 P) *m H^T
      + dt *: block11 Q &
      block22 P' = K *m block22 P *m K^T + dt *: block22 Q].
Proof.
move=> F H K P Q P'.
have E : P' = F *m P *m F^T + dt *: Q by exact: integrateMeasurement_cov.
have S : F = block3x3 1%:M (dt *: 1%:M) 0 0 1%:M H 0 0 K.
  exact: transitionF_shape.
have B : F *m P *m F^T + dt *: Q =
         block3x3 (block00 P + dt *: block10 P
                   + dt *: (block01 P + dt *: block11 P) + dt *: block00 Q)
           (block01 P + dt *: block11 P + (block02 P + dt *: block12 P) *m H^T
            + dt *: block01 Q)
           ((block02 P + dt *: block12 P) *m K^T + dt *: block02 Q)
           (block10 P + H *m block20 P + dt *: (block11 P + H *m block21 P)
            + dt *: block10 Q)
           (block11 P + H *m block21 P + (block12 P + H *m block22 P) *m H^T
            + dt *: block11 Q)
           ((block12 P + H *m block22 P) *m K^T + dt *: block12 Q)
           (K *m block20 P + dt *: (K *m block21 P) + dt *: block20 Q)
           (K *m block21 P + K *m block22 P *m H^T + dt *: block21 Q)
           (K *m block22 P *m K^T + dt *: block22 Q).
  rewrite S -[X in _ *m X *m _](block3x3K P) -[X in _ + dt *: X](block3x3K Q).
  exact: propagate_blocks_general.
by rewrite E B block00K block11K block22K.
Qed.

Lemma integrateMeasurement_Gout a w dt p Fo Go s :
  (integrateMeasurement ext a w dt p Fo Go s).2 =
  omap (resize9_assign (noiseG ext a w dt p s)) Go.
Proof.
rewrite /integrateMeasurement /noiseG.
by case: (correctMeasurementsByBiasAndSensorPose _ _ _ _ _) => cA cW.
Qed.

Lemma noise_mapping (dt : R) (Ri M Qi Qa Qw : Matrix3 R) :
  let G := block3x3 (dt *: 1%:M) 0 0 0 (dt *: Ri) 0 0 0 (dt *: M) in
  G *m block3x3 Qi 0 0 0 Qa 0 0 0 Qw *m G^T =
  (dt * dt) *: block3x3 Qi 0 0
                        0 (Ri *m Qa *m Ri^T) 0
                        0 0 (M *m Qw *m M^T).
Proof.
move=> G; rewrite /G block3x3_tr !block3x3_mul !block3x3_scale.
rewrite !(trmx0, mul0mx, mulmx0, addr0, add0r, scaler0).
by rewrite ?linearZ /= ?trmx1 -?scalemxAl -?scalemxAr ?mulmx1 ?mul1mx ?scalerA.
Qed.

(** X10.  A supplied Gout slot receives the 9x9 block-diagonal matrix G of
    lines 138-140: deltaT * I, deltaT * R_i with R_i the rotation delta
    read on line 91, and deltaT * Jrinv_theta_j * Jr_theta_incr; an absent
    slot stays absent.  With the block-diagonal noise matrix Q of the
    constructor, G * Q * G^T is deltaT^2 times the block-diagonal matrix
    (intCov, R_i * accCov * R_i^T, M * omegaCov * M^T), M = Jrinv_theta_j *
    Jr_theta_incr: the term of the comment on line 141 differs from the
    term Q * deltaT of line 127 by these two congruences. *)
Theorem Gout_noise_mapping (bias : ConstantBias R) accCov omegaCov intCov
    use2nd ops a w dt p Fo m :
  let s := run ext ops
             (PreintegratedMeasurements_ctor bias accCov omegaCov intCov use2nd) in
  let c := correctMeasurementsByBiasAndSensorPose ext (base s) a w p in
  let Rincr := Expmap ext (dt *: c.2) in
  let Jr_theta_incr := rightJacobianExpMapSO3 ext (dt *: c.2) in
  let b1 := updatePreintegratedJacobians ext c.1 Jr_theta_incr Rincr dt (base s) in
  let b2 := updatePreintegratedMeasurements c.1 Rincr dt b1 in
  let Ri := deltaRij b1 in
  let M := rightJacobianExpMapSO3inverse ext (thetaRij ext b2) *m Jr_theta_incr in
  let G := block3x3 (dt *: 1%:M) 0 0 0 (dt *: Ri) 0 0 0 (dt *: M) in
  [/\ (integrateMeasurement ext a w dt p Fo (Some m) s).2 =
      Some (@DynMatrix R (3 + (3 + 3)) (3 + (3 + 3)) G),
      (integrateMeasurement ext a w dt p Fo None s).2 = None &
      G *m measurementCovariance_ s *m G^T =
      (dt * dt) *: block3x3 intCov 0 0
                            0 (Ri *m accCov *m Ri^T) 0
                            0 0 (M *m omegaCov *m M^T)].
Proof.
move=> s c Rincr Jr_theta_incr b1 b2 Ri M G.
have EG : noiseG ext a w dt p s = G.
  rewrite /G /M /Ri /b2 /b1 /Jr_theta_incr /Rincr /c /noiseG.
  by case: (correctMeasurementsByBiasAndSensorPose _ _ _ _ _) => cA cW.
split.
- by rewrite integrateMeasurement_Gout EG.
- by rewrite integrateMeasurement_Gout.
- rewrite [X in _ *m X *m _]run_measurementCovariance ctor_measurementCovariance.
  exact: noise_mapping.
Qed.

End BlockRecursion.

(** ** The further properties run on concrete inputs *)

Section WitnessFacts.

Variable R : realFieldType.

Lemma symmetric_1 n : symmetric (1%:M : 'M[R]_n).
Proof. exact: trmx1. Qed.

End WitnessFacts.


(** ** The order of the writes within one call *)

Section Sequence.

Variable R : realFieldType.
Variable ext : Externals R.

Implicit Type s : PreintegratedMeasurements R.

Lemma block01K (A00 A01 A02 A10 A11 A12 A20 A21 A22 : Matrix3 R) :
  block01 (block3x3 A00 A01 A02 A10 A11 A12 A20 A21 A22) = A01.
Proof. by rewrite /block01 /block3x3 block_mxKur row_mxKl. Qed.

Lemma block02K (A00 A01 A02 A10 A11 A12 A20 A21 A22 : Matrix3 R) :
  block02 (block3x3 A00 A01 A02 A10 A11 A12 A20 A21 A22) = A02.
Proof. by rewrite /block02 /block3x3 block_mxKur row_mxKr. Qed.

Lemma block10K (A00 A01 A02 A10 A11 A12 A20 A21 A22 : Matrix3 R) :
  block10 (block3x3 A00 A01 A02 A10 A11 A12 A20 A21 A22) = A10.
Proof. by rewrite /block10 /block3x3 block_mxKdl col_mxKu. Qed.

Lemma block20K (A00 A01 A02 A10 A11 A12 A20 A21 A22 : Matrix3 R) :
  block20 (block3x3 A00 A01 A02 A10 A11 A12 A20 A21 A22) = A20.
Proof. by rewrite /block20 /block3x3 block_mxKdl col_mxKd. Qed.

Lemma block21K (A00 A01 A02 A10 A11 A12 A20 A21 A22 : Matrix3 R) :
  block21 (block3x3 A00 A01 A02 A10 A11 A12 A20 A21 A22) = A21.
Proof. by rewrite /block21 /block3x3 block_mxKdr block_mxKdl. Qed.


(** The state after line 96 has the deltas of the final state and the
    covariance of the entry state. *)
Lemma state_after_advance a w dt p s :
  let sts := integrateMeasurement_states ext a w dt p s in
  [/\ base (nth s sts 2) = base (nth s sts 3),
      preintMeasCov_ (nth s sts 2) = preintMeasCov_ s &
      nth s sts 3 = (integrateMeasurement ext a w dt p None None s).1.1].
Proof.
rewrite /integrateMeasurement_states /integrateMeasurement.
by case: (correctMeasurementsByBiasAndSensorPose _ _ _ _ _) => cA cW.
Qed.

Lemma first_call_changes a w p Fo Go :
  preintMeasCov_ (integrateMeasurement ext a w 1 p Fo Go (fresh R)).1.1 <>
  preintMeasCov_ (fresh R).
Proof.
move/(congr1 (@mxtrace _ _)); rewrite first_call_trace [RHS]/= mxtrace0 mul1r.
by move/eqP; rewrite pnatr_eq0.
Qed.

Lemma written_after_advance a w p :
  let sts := integrateMeasurement_states ext a w 1 p (fresh R) in
  [/\ base (nth (fresh R) sts 2) = base (nth (fresh R) sts 3),
      preintMeasCov_ (nth (fresh R) sts 2) = preintMeasCov_ (fresh R) &
      preintMeasCov_ (nth (fresh R) sts 3) <> preintMeasCov_ (fresh R)].
Proof.
move=> sts; have [e1 e2 e3] := state_after_advance a w 1 p (fresh R).
split; [exact: e1 | exact: e2 |].
rewrite [X in preintMeasCov_ X]e3; exact: first_call_changes.
Qed.

End Sequence.


(** C4 fails on binary64 numbers.  After one call with deltaT = 0.1 on a
    fresh accumulator whose accelerometer noise block is the symmetric
    matrix [[1,3,0],[3,9,0],[0,0,0]], rows 3 and 4 of the stored
    preintMeasCov hold the products 1 * 0.1, 3 * 0.1 and 9 * 0.1 rounded to
    binary64, and the exact value of the quadratic form at the vector
    (0,0,0, 3,-1,0, 0,0,0) is -14 * 2^-56 < 0, where the noise block itself
    gives 0: the stored matrix is symmetric but not positive semidefinite. *)
Lemma binary64_rounding_breaks_psd :
  [/\ ftranspose rank_one_block = rank_one_block,
      ftranspose after_one_call_binary64 = after_one_call_binary64,
      quadratic_binary64 [:: Zpos 3; Zneg 1; Z0] rank_one_block =
      Some (Z0, Zneg 52),
      quadratic_binary64 probe after_one_call_binary64 =
      Some (Zneg 14, Zneg 56) &
      Z.lt (Zneg 14) Z0].
Proof. by split; vm_compute. Qed.
